(** * The XO game state machine ([game/core/game_xo.py])

    A shallow embedding of class [Game]: the methods [step], [result],
    [step_result], [ai_get_step], [ai_step], [ai_step_result], [set_winner],
    [set_draw], [_get_win_comb] and [_get_draw_result], written against the
    interfaces the class is written against (a table, a checker, an AI
    strategy), followed by the properties of the state machine.

    Python objects are shared and mutable.  The objects a [Game] reaches are
    its table, its game state and the [Player] objects handed to its methods;
    they are kept in one record that every method threads, and a player is
    named by a reference into the store of [Player] objects, so that
    [game_state.win_player] aliases the player rather than copying it.  A
    method either returns or raises, and what it mutated before raising stays
    mutated: a run yields an outcome, the record afterwards, and the calls it
    made on its collaborators, in order. *)

From stdpp Require Import base numbers list functions strings.

Local Open Scope Z_scope.

(** ** Data ([game/core/table/annotations.py]) *)

(** [CellIndex = tuple[int, int]], (index_row, index_column). *)
Definition CellIndex : Type := Z * Z.

(** [CombType = tuple[CellIndex, ...]]. *)
Definition CombType : Type := list CellIndex.

(** [CombsType = tuple[CombType, ...]]. *)
Definition CombsType : Type := list CombType.

(** A reference to a [Player] object (object identity). *)
Definition PlayerRef : Type := nat.

(** Modelled from the spec: [ResultCode] of [game.core.result], which is not
    among the sources; the three codes of the data model. *)
Inductive ResultCode : Type :=
  | IN_PROGRESS
  | WINNER
  | ALL_CELLS_USED.

Global Instance ResultCode_eq_dec : EqDecision ResultCode.
Proof. solve_decision. Defined.

(** Modelled from the spec: [GameState] of [game.core.result]: a code, a
    reference to the winning player or none, the winning combination or
    none. *)
Record GameState : Type := MkGameState {
  code : ResultCode;
  win_player : option PlayerRef;
  win_combination : option CombType
}.

Global Instance GameState_eq_dec : EqDecision GameState.
Proof. solve_decision. Defined.

(** Modelled from the spec: [GameState()], the state a game starts in:
    [IN_PROGRESS] with no winner. *)
Definition GameState_default : GameState :=
  {| code := IN_PROGRESS; win_player := None; win_combination := None |}.

(** Modelled from the spec: [GameState.update] with keyword arguments, which
    sets the attributes it is given ([set_winner] gives all three,
    [set_draw] only the code) and keeps the others. *)
Definition update (new_code : option ResultCode)
    (new_win_player : option PlayerRef)
    (new_win_combination : option CombType) (gs : GameState) : GameState :=
  {| code := default (code gs) new_code;
     win_player :=
       match new_win_player with Some p => Some p | None => win_player gs end;
     win_combination :=
       match new_win_combination with
       | Some c => Some c
       | None => win_combination gs
       end |}.

(** A terminal code is [WINNER] or [ALL_CELLS_USED]. *)
Definition terminal (c : ResultCode) : bool :=
  match c with
  | IN_PROGRESS => false
  | WINNER | ALL_CELLS_USED => true
  end.

(** Outcome of a call: it returns a value or raises an exception. *)
Inductive Res (E A : Type) : Type :=
  | Ok (a : A)
  | Raise (e : E).
Arguments Ok {E A} a.
Arguments Raise {E A} e.

(** Python truth value of an [Optional[CombType]]: [None] and the empty
    tuple are false, a tuple with an element is true (the test of
    [if win_comb := ...] in [Game.result]). *)
Definition truthy (win_comb : option CombType) : bool :=
  match win_comb with
  | Some (_ :: _) => true
  | Some [] | None => false
  end.

(** ** Collaborators

    [Game] receives its table, checker and AI strategy at construction and
    only calls their interface; each is a class here, with one instance per
    implementation. *)

(** A [Player] object: [symbol], [count_steps]. *)
Record Player (Symbol : Type) : Type := MkPlayer {
  symbol : Symbol;
  count_steps : Z
}.
Arguments MkPlayer {Symbol} symbol count_steps.
Arguments symbol {Symbol} p.
Arguments count_steps {Symbol} p.

(** Modelled from the spec: [Player.add_count_step()] of
    [game.core.players.player]: one more step on the counter. *)
Definition add_count_step {Symbol : Type} (pl : Player Symbol) : Player Symbol :=
  {| symbol := symbol pl; count_steps := count_steps pl + 1 |}.

(** What [Game] uses of its table: the properties [game_field],
    [combinations], [param.COMBINATION] and [count_free_cells], which read,
    and [set_symbol_cell], which returns or raises and leaves a table
    behind in both cases. *)
Class TableT (Symbol Exn Field Table : Type) : Type := {
  game_field : Table -> Field;
  combinations : Table -> CombsType;
  param_COMBINATION : Table -> Z;
  count_free_cells : Table -> Z;
  set_symbol_cell : Z -> Z -> Symbol -> Table -> Res Exn unit * Table
}.

(** [CheckerBase]: [result_player(symbol, table, combinations)], a
    combination or [None]. *)
Class CheckerBase (Symbol Field : Type) : Type := {
  result_player : Symbol -> Field -> CombsType -> option CombType
}.

(** [AIBase]: [get_step(symbol, table, combinations)], a cell index, or an
    exception when there is no move. *)
Class AIBase (Symbol Exn Field : Type) : Type := {
  get_step : Symbol -> Field -> CombsType -> Res Exn CellIndex
}.

(** ** The game *)

Section GameXO.

Context {Symbol Exn Field Table : Type}.
Context `{!TableT Symbol Exn Field Table}.
Context `{!CheckerBase Symbol Field}.
Context `{!AIBase Symbol Exn Field}.

(** The objects a [Game] reaches: [self._table], [self._game_state] and
    the store of [Player] objects. *)
Record Game : Type := MkGame {
  table : Table;
  game_state : GameState;
  player_of : PlayerRef -> Player Symbol
}.

Definition with_table (t : Table) (g : Game) : Game :=
  {| table := t; game_state := game_state g; player_of := player_of g |}.

Definition with_game_state (gs : GameState) (g : Game) : Game :=
  {| table := table g; game_state := gs; player_of := player_of g |}.

Definition with_player (p : PlayerRef) (pl : Player Symbol) (g : Game) : Game :=
  {| table := table g; game_state := game_state g;
     player_of := <[p := pl]> (player_of g) |}.

(** A call made on a collaborator or on one of the two transition
    operations, with its arguments. *)
Inductive Call : Type :=
  | Call_set_symbol_cell (index_row index_column : Z) (s : Symbol)
  | Call_add_count_step (player : PlayerRef)
  | Call_result_player (s : Symbol)
  | Call_count_free_cells
  | Call_get_step (s : Symbol)
  | Call_set_winner (player : PlayerRef) (win_combination : CombType)
  | Call_set_draw.

(** One run of a method. *)
Record Run (A : Type) : Type := MkRun {
  outcome : Res Exn A;
  after : Game;
  trace : list Call
}.
Arguments MkRun {A} outcome after trace.
Arguments outcome {A} r.
Arguments after {A} r.
Arguments trace {A} r.

Definition M (A : Type) : Type := Game -> Run A.

Definition ret {A : Type} (a : A) : M A :=
  fun g => MkRun (Ok a) g [].

(** Sequencing: an exception of the first part ends the run, with the
    state and the calls of the first part. *)
Definition bind {A B : Type} (m : M A) (k : A -> M B) : M B :=
  fun g =>
    let r := m g in
    match outcome r with
    | Ok a =>
        let r' := k a (after r) in
        MkRun (outcome r') (after r') (trace r ++ trace r')
    | Raise e => MkRun (Raise e) (after r) (trace r)
    end.

Local Notation "x <- m ;; k" := (bind m (fun x => k))
  (at level 100, m at next level, right associativity).
Local Notation "m ;;; k" := (bind m (fun _ => k))
  (at level 100, right associativity).

(** Reading an attribute: no call, no change. *)
Definition gets {A : Type} (f : Game -> A) : M A :=
  fun g => MkRun (Ok (f g)) g [].

(** [self.table.set_symbol_cell(index_row, index_column, symbol)]. *)
Definition table_set_symbol_cell (index_row index_column : Z) (s : Symbol)
    : M unit :=
  fun g =>
    let '(o, t) := set_symbol_cell index_row index_column s (table g) in
    MkRun o (with_table t g) [Call_set_symbol_cell index_row index_column s].

(** [player.add_count_step()]. *)
Definition player_add_count_step (player : PlayerRef) : M unit :=
  fun g =>
    MkRun (Ok tt) (with_player player (add_count_step (player_of g player)) g)
      [Call_add_count_step player].

(** [self.table.count_free_cells]. *)
Definition table_count_free_cells : M Z :=
  fun g => MkRun (Ok (count_free_cells (table g))) g [Call_count_free_cells].

(** [Game.step]. *)
Definition step (index_row index_column : Z) (player : PlayerRef) : M unit :=
  s <- gets (fun g => symbol (player_of g player)) ;;
  table_set_symbol_cell index_row index_column s ;;;
  player_add_count_step player.

(** [Game.set_winner]. *)
Definition set_winner (player : PlayerRef) (win_combination : CombType)
    : M unit :=
  fun g =>
    MkRun (Ok tt)
      (with_game_state
         (update (Some WINNER) (Some player) (Some win_combination)
            (game_state g)) g)
      [Call_set_winner player win_combination].

(** [Game.set_draw]. *)
Definition set_draw : M unit :=
  fun g =>
    MkRun (Ok tt)
      (with_game_state (update (Some ALL_CELLS_USED) None None (game_state g)) g)
      [Call_set_draw].

(** [Game._get_win_comb]. *)
Definition _get_win_comb (player : PlayerRef) : M (option CombType) :=
  fun g =>
    let s := symbol (player_of g player) in
    MkRun (Ok (result_player s (game_field (table g)) (combinations (table g))))
      g [Call_result_player s].

(** [Game._get_draw_result]: [True] when no cell is free, otherwise the
    method falls off its end and returns [None], which is false. *)
Definition _get_draw_result : M bool :=
  n <- table_count_free_cells ;;
  ret (bool_decide (n = 0)).

(** The body of the [if] of [Game.result]. *)
Definition check_win_or_draw (player : PlayerRef) : M unit :=
  win_comb <- _get_win_comb player ;;
  match win_comb with
  | Some (i :: c) => set_winner player (i :: c)
  | Some [] | None =>
      d <- _get_draw_result ;;
      if d then set_draw else ret tt
  end.

(** [Game.result]. *)
Definition result (player : PlayerRef) : M GameState :=
  cs <- gets (fun g => count_steps (player_of g player)) ;;
  k <- gets (fun g => param_COMBINATION (table g)) ;;
  (if bool_decide (k <= cs) then check_win_or_draw player else ret tt) ;;;
  gets game_state.

(** [Game.step_result]. *)
Definition step_result (index_row index_column : Z) (player : PlayerRef)
    : M GameState :=
  step index_row index_column player ;;;
  result player.

(** [Game.ai_get_step]. *)
Definition ai_get_step (player : PlayerRef) : M CellIndex :=
  fun g =>
    let s := symbol (player_of g player) in
    MkRun (get_step s (game_field (table g)) (combinations (table g)))
      g [Call_get_step s].

(** [Game.ai_step]. *)
Definition ai_step (player : PlayerRef) : M unit :=
  i <- ai_get_step player ;;
  step (fst i) (snd i) player.

(** [Game.ai_step_result]. *)
Definition ai_step_result (player : PlayerRef) : M GameState :=
  i <- ai_get_step player ;;
  step_result (fst i) (snd i) player.

(** [Game.__init__]: the game holds the table and the [GameState] object it
    is given.  The default value of the parameter [game_state] is evaluated
    once, when the class is defined, so the games built without the
    argument hold one and the same object, in the state the last of them
    left it; the state the game starts in is therefore an argument here. *)
Definition Game_init (t : Table) (players : PlayerRef -> Player Symbol)
    (gs : GameState) : Game :=
  {| table := t; game_state := gs; player_of := players |}.

(** What stays of a run for an observer of the game: what the method
    returned or raised and the objects afterwards; the calls made on the
    collaborators are left out. *)
Definition observable {A : Type} (r : Run A) : Res Exn A * Game :=
  (outcome r, after r).

(** The variant of [result] of the design notes, which checks the winning
    combination and the draw condition without the [count_steps] test. *)
Definition result_ungated (player : PlayerRef) : M GameState :=
  check_win_or_draw player ;;;
  gets game_state.

(** A history of a game: the calls a driver makes on the [Game] object, one
    after the other.  A call that raises leaves the objects as they are at
    the raise and the driver goes on with its next call. *)
Inductive Cmd : Type :=
  | Do_step (index_row index_column : Z) (player : PlayerRef)
  | Do_result (player : PlayerRef)
  | Do_step_result (index_row index_column : Z) (player : PlayerRef)
  | Do_ai_step (player : PlayerRef)
  | Do_ai_step_result (player : PlayerRef).

Definition exec (c : Cmd) (g : Game) : Game :=
  match c with
  | Do_step r k p => after (step r k p g)
  | Do_result p => after (result p g)
  | Do_step_result r k p => after (step_result r k p g)
  | Do_ai_step p => after (ai_step p g)
  | Do_ai_step_result p => after (ai_step_result p g)
  end.

Definition play (h : list Cmd) (g : Game) : Game :=
  foldl (fun g c => exec c g) g h.

(** The same history on a game whose [result] is the variant without the
    test, also where [step_result] and [ai_step_result] call it. *)
Definition step_result_ungated (index_row index_column : Z)
    (player : PlayerRef) : M GameState :=
  step index_row index_column player ;;;
  result_ungated player.

Definition ai_step_result_ungated (player : PlayerRef) : M GameState :=
  i <- ai_get_step player ;;
  step_result_ungated (fst i) (snd i) player.

Definition exec_ungated (c : Cmd) (g : Game) : Game :=
  match c with
  | Do_step r k p => after (step r k p g)
  | Do_result p => after (result_ungated p g)
  | Do_step_result r k p => after (step_result_ungated r k p g)
  | Do_ai_step p => after (ai_step p g)
  | Do_ai_step_result p => after (ai_step_result_ungated p g)
  end.

Definition play_ungated (h : list Cmd) (g : Game) : Game :=
  foldl (fun g c => exec_ungated c g) g h.

(** *** Relations between the game before and after a call *)

(** Every run of [m] relates the game it ends in, by returning or by
    raising, to the game it started from. *)
Definition establishes {A : Type} (R : Game -> Game -> Prop) (m : M A) : Prop :=
  forall g, R g (after (m g)).

(** The [Player] objects keep their symbols and their counters do not go
    down. *)
Definition players_grow (g g' : Game) : Prop :=
  forall q,
    symbol (player_of g' q) = symbol (player_of g q)
    /\ count_steps (player_of g q) <= count_steps (player_of g' q).

(** A game state that says no more than its code allows and no less than
    it promises: no winner while [IN_PROGRESS]; a winner and a combination
    of at least one cell when [WINNER]. *)
Definition coherent (gs : GameState) : Prop :=
  (code gs = IN_PROGRESS -> win_player gs = None /\ win_combination gs = None)
  /\ (code gs = WINNER ->
      exists p c,
        win_player gs = Some p /\ win_combination gs = Some c /\ c <> []).

(** The game state is the same; a terminal code is still terminal; a
    coherent game state is still coherent. *)
Definition same_game_state (g g' : Game) : Prop :=
  game_state g' = game_state g.

Definition terminal_kept (g g' : Game) : Prop :=
  terminal (code (game_state g)) = true ->
  terminal (code (game_state g')) = true.

Definition coherent_kept (g g' : Game) : Prop :=
  coherent (game_state g) -> coherent (game_state g').

(** The calls of a driver that only moves: [step] and [ai_step]. *)
Definition moves_only (c : Cmd) : bool :=
  match c with
  | Do_step _ _ _ | Do_ai_step _ => true
  | Do_result _ | Do_step_result _ _ _ | Do_ai_step_result _ => false
  end.

End GameXO.

Arguments Game : clear implicits.
Arguments Call : clear implicits.
Arguments Cmd : clear implicits.
Arguments MkRun {Symbol Exn Table A} outcome after trace.
Arguments outcome {Symbol Exn Table A} r.
Arguments after {Symbol Exn Table A} r.
Arguments trace {Symbol Exn Table A} r.

(** ** The default table, checker and strategy

    [game.core.table], [game.core.cheker] and [game.core.ai] are not among
    the sources; the implementations below follow the specification and
    serve to run the game on concrete boards. *)

Module Default.

Local Open Scope string_scope.

(** Modelled from the spec: the error kinds of the error handling design. *)
Inductive GameError : Type :=
  | InvalidMoveError
  | ConfigurationError
  | NoMovesAvailableError.

(** Modelled from the spec: a [Cell] of [game.core.table.cell]: its row, its
    column and a symbol or nothing. *)
Record Cell : Type := MkCell {
  row : Z;
  column : Z;
  cell_symbol : option string
}.

Definition GameFieldType : Type := list (list Cell).

(** Modelled from the spec: [TableDefault] of [game.core.table.table]: the
    size N, the run length K, the N x N grid in row-major order and the
    combinations computed once at construction. *)
Record TableDefault : Type := MkTable {
  size : Z;
  run_length : Z;
  grid : GameFieldType;
  table_combinations : CombsType
}.

(** The [K] cells from [(r, c)] in direction [(dr, dc)]. *)
Definition line (K r c dr dc : Z) : CombType :=
  (fun i => (r + i * dr, c + i * dc)) <$> seqZ 0 K.

(** Modelled from the spec: combination generation, a function of [size] and
    [run_length]: every window of [K] consecutive cells of every row, of
    every column and along both diagonal directions, without duplicates. *)
Definition horizontal (N K : Z) : CombsType :=
  r ← seqZ 0 N; c ← seqZ 0 (N - K + 1); [line K r c 0 1].

Definition vertical (N K : Z) : CombsType :=
  c ← seqZ 0 N; r ← seqZ 0 (N - K + 1); [line K r c 1 0].

Definition diagonal_down (N K : Z) : CombsType :=
  r ← seqZ 0 (N - K + 1); c ← seqZ 0 (N - K + 1); [line K r c 1 1].

Definition diagonal_up (N K : Z) : CombsType :=
  r ← seqZ 0 (N - K + 1); c ← seqZ (K - 1) (N - K + 1); [line K r c 1 (-1)].

Definition generate_combinations (N K : Z) : CombsType :=
  remove_dups
    (horizontal N K ++ vertical N K ++ diagonal_down N K ++ diagonal_up N K).

Definition empty_grid (N : Z) : GameFieldType :=
  (fun r => (fun c => MkCell r c None) <$> seqZ 0 N) <$> seqZ 0 N.

Definition make_table (N K : Z) : TableDefault :=
  {| size := N; run_length := K; grid := empty_grid N;
     table_combinations := generate_combinations N K |}.

(** Modelled from the spec: construction fails with [ConfigurationError]
    unless [1 <= run_length <= size]. *)
Definition TableDefault_new (N K : Z) : Res GameError TableDefault :=
  if bool_decide (1 <= K <= N) then Ok (make_table N K)
  else Raise ConfigurationError.

Definition cell_at (f : GameFieldType) (i : CellIndex) : option Cell :=
  if bool_decide (0 <= i.1 /\ 0 <= i.2)
  then f !! Z.to_nat i.1 ≫= fun cells => cells !! Z.to_nat i.2
  else None.

Definition put (s : string) (c : Cell) : Cell :=
  {| row := row c; column := column c; cell_symbol := Some s |}.

(** Modelled from the spec: [Table.set_symbol_cell]: the index is in bounds
    and the cell is empty, or [InvalidMoveError] and the grid is left as it
    is. *)
Definition TableDefault_set_symbol_cell (r c : Z) (s : string)
    (t : TableDefault) : Res GameError unit * TableDefault :=
  if bool_decide (0 <= r < size t /\ 0 <= c < size t) then
    match cell_at (grid t) (r, c) with
    | Some {| cell_symbol := None |} =>
        (Ok tt,
         {| size := size t; run_length := run_length t;
            grid := alter (alter (put s) (Z.to_nat c)) (Z.to_nat r) (grid t);
            table_combinations := table_combinations t |})
    | _ => (Raise InvalidMoveError, t)
    end
  else (Raise InvalidMoveError, t).

Definition is_free (c : Cell) : bool :=
  match cell_symbol c with None => true | Some _ => false end.

(** Modelled from the spec: [Table.count_free_cells], the number of cells
    still empty. *)
Definition TableDefault_count_free_cells (t : TableDefault) : Z :=
  Z.of_nat (length (List.filter is_free (concat (grid t)))).

Definition holds (s : string) (f : GameFieldType) (i : CellIndex) : bool :=
  match cell_at f i with
  | Some c => bool_decide (cell_symbol c = Some s)
  | None => false
  end.

(** Modelled from the spec: [CombinationChecker.result_for_symbol]
    ([result_player] in the call of [Game._get_win_comb]): the first
    combination whose every cell holds the symbol, or none. *)
Definition CheckerDefault_result_player (s : string) (f : GameFieldType)
    (combs : CombsType) : option CombType :=
  List.find (forallb (holds s f)) combs.

(** Modelled from the spec: a strategy within the contract of
    [AIStrategy.get_step]: the first empty cell in row-major order, and
    [NoMovesAvailableError] when there is none. *)
Definition AIDefault_get_step (s : string) (f : GameFieldType)
    (combs : CombsType) : Res GameError CellIndex :=
  match List.filter is_free (concat f) with
  | c :: _ => Ok (row c, column c)
  | [] => Raise NoMovesAvailableError
  end.

Global Instance TableDefault_table : TableT string GameError GameFieldType TableDefault := {|
  game_field := grid;
  combinations := table_combinations;
  param_COMBINATION := run_length;
  count_free_cells := TableDefault_count_free_cells;
  set_symbol_cell := TableDefault_set_symbol_cell
|}.

Global Instance CheckerDefault : CheckerBase string GameFieldType := {|
  result_player := CheckerDefault_result_player
|}.

Global Instance AIDefault : AIBase string GameError GameFieldType := {|
  get_step := AIDefault_get_step
|}.

(** Players that have not moved yet: the player of reference [i] has the
    [i]-th of the symbols. *)
Definition new_players (symbols : list string) : PlayerRef -> Player string :=
  fun p => {| symbol := default "" (symbols !! p); count_steps := 0 |}.

(** A new game on an [N] x [N] board with run length [K], built with a new
    [GameState()] of its own. *)
Definition new_game (N K : Z) (symbols : list string) : Game string TableDefault :=
  Game_init (make_table N K) (new_players symbols) GameState_default.

(** *** Games on concrete boards *)

Definition player_X : PlayerRef := 0%nat.
Definition player_O : PlayerRef := 1%nat.

(** A new 3 x 3 game with run length 3 between X and O. *)
Definition game_new : Game string TableDefault :=
  new_game 3 3 ["X"; "O"].

(** X holds row 0 after its third move; [result] has not been called. *)
Definition game_row0 : Game string TableDefault :=
  play [Do_step 0 0 player_X; Do_step 1 1 player_O; Do_step 0 1 player_X;
        Do_step 1 0 player_O; Do_step 0 2 player_X] game_new.

(** X has moved three times and holds no line; four cells are free. *)
Definition game_open : Game string TableDefault :=
  play [Do_step 0 0 player_X; Do_step 1 1 player_O; Do_step 0 1 player_X;
        Do_step 1 0 player_O; Do_step 2 2 player_X] game_new.

(** The board is full and nobody holds a line; [result] has not been
    called:
<<
      X O X
      X O O
      O X X
>> *)
Definition game_full : Game string TableDefault :=
  play [Do_step 0 0 player_X; Do_step 0 1 player_O; Do_step 0 2 player_X;
        Do_step 1 1 player_O; Do_step 1 0 player_X; Do_step 1 2 player_O;
        Do_step 2 1 player_X; Do_step 2 0 player_O; Do_step 2 2 player_X]
    game_new.

(** A game played with [step_result] only, X and O in turn, in which X
    completes the diagonal with the ninth move, on the last free cell:
<<
      X O X
      O X O
      O X X
>> *)
Definition history_X_wins_last : list Cmd :=
  [Do_step_result 0 0 player_X; Do_step_result 0 1 player_O;
   Do_step_result 0 2 player_X; Do_step_result 1 0 player_O;
   Do_step_result 2 1 player_X; Do_step_result 1 2 player_O;
   Do_step_result 2 2 player_X; Do_step_result 2 0 player_O;
   Do_step_result 1 1 player_X].


(** The game of the end-to-end scenario: X wins with row 0 on its third
    move, found by [step_result]. *)
Definition game_X_won_row0 : Game string TableDefault :=
  play [Do_step_result 0 0 player_X; Do_step_result 1 1 player_O;
        Do_step_result 0 1 player_X; Do_step_result 1 0 player_O;
        Do_step_result 0 2 player_X] game_new.

(** Four players on a 2 x 2 board with run length 2, each moving once with
    [step_result], in turn. *)
Definition history_four_players : list Cmd :=
  [Do_step_result 0 0 0%nat; Do_step_result 0 1 1%nat;
   Do_step_result 1 0 2%nat; Do_step_result 1 1 3%nat].

Definition game_four_players : Game string TableDefault :=
  new_game 2 2 ["A"; "B"; "C"; "D"].

(** Two [Player] objects with the same symbol: the first places X at (0, 0)
    and (0, 1), the second places X at (0, 2), its only move, and row 0 is
    full of X. *)
Definition game_shared_symbol : Game string TableDefault :=
  play [Do_step 0 0 0%nat; Do_step 0 1 0%nat; Do_step 0 2 1%nat]
    (new_game 3 3 ["X"; "X"]).

(** The cells on the lines of the table, each once, and the number of them
    that hold [s]. *)
Definition lines_cells (t : TableDefault) : list CellIndex :=
  remove_dups (concat (table_combinations t)).

Definition held (s : string) (t : TableDefault) : Z :=
  Z.of_nat (length (List.filter (holds s (grid t)) (lines_cells t))).

(** The lines of a table name no cell twice and, unless empty, have
    [run_length] cells. *)
Definition lines_wf (t : TableDefault) : Prop :=
  forall c, c ∈ table_combinations t ->
    NoDup c /\ (c <> [] -> Z.of_nat (length c) = run_length t).

(** The symbol [s] is the symbol of [player] and of no other [Player]
    object, and no more cells hold it than [player] has made steps. *)
Definition own_symbol_counted (player : PlayerRef) (s : string)
    (g : Game string TableDefault) : Prop :=
  lines_wf (table g)
  /\ symbol (player_of g player) = s
  /\ (forall q, q <> player -> symbol (player_of g q) <> s)
  /\ held s (table g) <= count_steps (player_of g player).

(** X holds (0, 0) and (0, 1), O holds (1, 1) and (1, 0); X is to make its
    third move. *)
Definition game_two_moves_each : Game string TableDefault :=
  play [Do_step_result 0 0 player_X; Do_step_result 1 1 player_O;
        Do_step_result 0 1 player_X; Do_step_result 1 0 player_O] game_new.

End Default.

(** ** Properties of the state machine *)

Section GameXO_properties.

Context {Symbol Exn Field Table : Type}.
Context `{!TableT Symbol Exn Field Table}.
Context `{!CheckerBase Symbol Field}.
Context `{!AIBase Symbol Exn Field}.

Implicit Types (g : Game Symbol Table) (player : PlayerRef).

(** The combination the checker finds for the symbol of [player]. *)
Local Abbreviation win_comb_of g player :=
  (result_player (symbol (player_of g player)) (game_field (table g))
     (combinations (table g))).

(** The game after [set_winner] and after [set_draw]. *)
Local Abbreviation after_set_winner player c g :=
  (after (set_winner (Exn := Exn) player c g)).
Local Abbreviation after_set_draw g :=
  (after (set_draw (Exn := Exn) g)).

Ltac unfold_run :=
  unfold step_result, ai_step_result, ai_step, result, result_ungated,
    check_win_or_draw, step, _get_draw_result, _get_win_comb, ai_get_step,
    table_count_free_cells, table_set_symbol_cell, player_add_count_step,
    set_winner, set_draw, observable, bind, gets, ret;
  cbn [outcome after trace table game_state player_of with_table
       with_game_state with_player app].

(** [result] below the run length: one equation for the whole run. *)
Lemma result_gate_closed player g :
  count_steps (player_of g player) < param_COMBINATION (table g) ->
  result player g = MkRun (Ok (game_state g)) g [].
Proof.
  intros Hlt. unfold_run.
  rewrite bool_decide_eq_false_2 by lia. reflexivity.
Qed.

(** [result] from the run length on runs the body of the [if]. *)
Lemma result_gate_open player g :
  param_COMBINATION (table g) <= count_steps (player_of g player) ->
  result player g = result_ungated player g.
Proof.
  intros Hle. unfold result, result_ungated, bind, gets.
  cbn [outcome after trace]. rewrite bool_decide_eq_true_2 by lia.
  destruct (outcome (check_win_or_draw player g)); reflexivity.
Qed.

(** The three runs of the body of the [if]. *)
Lemma ungated_winner player g c :
  win_comb_of g player = Some c -> c <> [] ->
  result_ungated player g =
    let g' := after_set_winner player c g in
    MkRun (Ok (game_state g')) g'
      [Call_result_player (symbol (player_of g player));
       Call_set_winner player c].
Proof.
  intros Hc Hne. unfold_run. rewrite Hc.
  destruct c as [|i c]; [congruence | reflexivity].
Qed.

Lemma ungated_draw player g :
  truthy (win_comb_of g player) = false ->
  count_free_cells (table g) = 0 ->
  result_ungated player g =
    let g' := after_set_draw g in
    MkRun (Ok (game_state g')) g'
      [Call_result_player (symbol (player_of g player));
       Call_count_free_cells; Call_set_draw].
Proof.
  intros Hf H0. unfold_run.
  destruct (win_comb_of g player) as [[|i c]|]; try discriminate;
    cbn; rewrite bool_decide_eq_true_2 by done; reflexivity.
Qed.

Lemma ungated_unchanged player g :
  truthy (win_comb_of g player) = false ->
  count_free_cells (table g) <> 0 ->
  result_ungated player g =
    MkRun (Ok (game_state g)) g
      [Call_result_player (symbol (player_of g player));
       Call_count_free_cells].
Proof.
  intros Hf H0. unfold_run.
  destruct (win_comb_of g player) as [[|i c]|]; try discriminate;
    cbn; rewrite bool_decide_eq_false_2 by done; reflexivity.
Qed.

(** Every run of [result] is one of four. *)
Lemma result_cases player g :
  result player g = MkRun (Ok (game_state g)) g []
  \/ (exists c, win_comb_of g player = Some c /\
        result player g =
          MkRun (Ok (game_state (after_set_winner player c g)))
            (after_set_winner player c g)
            [Call_result_player (symbol (player_of g player));
             Call_set_winner player c])
  \/ result player g =
       MkRun (Ok (game_state (after_set_draw g))) (after_set_draw g)
         [Call_result_player (symbol (player_of g player));
          Call_count_free_cells; Call_set_draw]
  \/ result player g =
       MkRun (Ok (game_state g)) g
         [Call_result_player (symbol (player_of g player));
          Call_count_free_cells].
Proof.
  destruct (decide (param_COMBINATION (table g)
                    <= count_steps (player_of g player))) as [Hle|Hlt].
  - rewrite (result_gate_open _ _ Hle).
    destruct (win_comb_of g player) as [[|i c]|] eqn:Hc.
    + destruct (decide (count_free_cells (table g) = 0)).
      * right; right; left. apply ungated_draw; [by rewrite Hc | done].
      * right; right; right. apply ungated_unchanged; [by rewrite Hc | done].
    + right; left. exists (i :: c). split; [done|].
      by apply ungated_winner.
    + destruct (decide (count_free_cells (table g) = 0)).
      * right; right; left. apply ungated_draw; [by rewrite Hc | done].
      * right; right; right. apply ungated_unchanged; [by rewrite Hc | done].
  - left. apply result_gate_closed. lia.
Qed.


(** C2.  When the player has made at least [run_length] steps: if the checker
    returns a combination (of at least one cell, as every combination of a
    table is), [result] calls [set_winner] with the player and that
    combination and the state is [WINNER] with them; otherwise, if no cell is
    free, it calls [set_draw] and the code is [ALL_CELLS_USED]; otherwise
    the game is unchanged.  In every case [result] returns the game state of
    the game as it is afterwards. *)
Theorem result_from_run_length player g :
  param_COMBINATION (table g) <= count_steps (player_of g player) ->
  let s := symbol (player_of g player) in
  (forall c, win_comb_of g player = Some c -> c <> [] ->
     result player g =
       MkRun (Ok (game_state (after_set_winner player c g)))
         (after_set_winner player c g)
         [Call_result_player s; Call_set_winner player c]
     /\ game_state (after (result player g)) =
          {| code := WINNER; win_player := Some player;
             win_combination := Some c |})
  /\ (truthy (win_comb_of g player) = false ->
      count_free_cells (table g) = 0 ->
      result player g =
        MkRun (Ok (game_state (after_set_draw g))) (after_set_draw g)
          [Call_result_player s; Call_count_free_cells; Call_set_draw]
      /\ code (game_state (after (result player g))) = ALL_CELLS_USED)
  /\ (truthy (win_comb_of g player) = false ->
      count_free_cells (table g) <> 0 ->
      result player g =
        MkRun (Ok (game_state g)) g
          [Call_result_player s; Call_count_free_cells])
  /\ outcome (result player g) = Ok (game_state (after (result player g))).
Proof.
  intros Hle s. split; [|split; [|split]].
  - intros c Hc Hne. rewrite (result_gate_open _ _ Hle).
    rewrite (ungated_winner _ _ _ Hc Hne). done.
  - intros Hf Hfull. rewrite (result_gate_open _ _ Hle).
    rewrite (ungated_draw _ _ Hf Hfull). done.
  - intros Hf Hfree. rewrite (result_gate_open _ _ Hle).
    by apply ungated_unchanged.
  - destruct (result_cases player g) as [E|[(c & _ & E)|[E|E]]];
      rewrite E; reflexivity.
Qed.

(** C3.  When the player has made fewer steps than the run length, [result]
    calls neither the checker nor [count_free_cells] (it makes no call at
    all), leaves the game, hence the game state, as it is, and returns that
    game state. *)
Theorem result_below_run_length player g :
  count_steps (player_of g player) < param_COMBINATION (table g) ->
  outcome (result player g) = Ok (game_state g)
  /\ after (result player g) = g
  /\ trace (result player g) = [].
Proof.
  intros Hlt. rewrite (result_gate_closed _ _ Hlt). done.
Qed.

(** C5.  When [set_symbol_cell] raises [e], [step] and [step_result] raise
    that same [e]; they have called [set_symbol_cell] once and made no other
    call, and the game is as the table left it at the raise. *)
Theorem step_propagates_error index_row index_column player g e t :
  set_symbol_cell index_row index_column (symbol (player_of g player))
    (table g) = (Raise e, t) ->
  let call :=
    Call_set_symbol_cell index_row index_column (symbol (player_of g player)) in
  step index_row index_column player g = MkRun (Raise e) (with_table t g) [call]
  /\ step_result index_row index_column player g =
       MkRun (Raise e) (with_table t g) [call].
Proof.
  intros Hraise call. unfold_run. rewrite Hraise. done.
Qed.

(** C6.  [step] calls [set_symbol_cell] with the player's symbol and, when
    that returns, increments the player's step counter by one; and
    [step_result] is [step] followed, when [step] returns, by [result] for
    the same player on the game [step] left, with the outcome of that
    [result]. *)
Theorem step_result_is_step_then_result index_row index_column player g :
  let s := symbol (player_of g player) in
  let call := Call_set_symbol_cell index_row index_column s in
  step index_row index_column player g =
    match set_symbol_cell index_row index_column s (table g) with
    | (Ok _, t) =>
        MkRun (Ok tt)
          {| table := t; game_state := game_state g;
             player_of :=
               <[player := {| symbol := s;
                              count_steps :=
                                count_steps (player_of g player) + 1 |}]>
                 (player_of g) |}
          [call; Call_add_count_step player]
    | (Raise e, t) => MkRun (Raise e) (with_table t g) [call]
    end
  /\ step_result index_row index_column player g =
       let r1 := step index_row index_column player g in
       match outcome r1 with
       | Ok _ =>
           let r2 := result player (after r1) in
           MkRun (outcome r2) (after r2) (trace r1 ++ trace r2)
       | Raise e => MkRun (Raise e) (after r1) (trace r1)
       end.
Proof.
  intros s call. split; [|reflexivity].
  unfold_run.
  destruct (set_symbol_cell index_row index_column _ (table g)) as [[[]|e] t];
    reflexivity.
Qed.

(** C7.  [ai_get_step] returns (or raises) what the strategy's [get_step]
    does on the player's symbol, the field of the table and the table's
    combinations, makes that one call and leaves the game as it is; and
    [ai_step_result] makes that call once and then runs [step_result] at the
    row and column returned, for the same player. *)
Theorem ai_get_step_delegates player g :
  let s := symbol (player_of g player) in
  let answer := get_step s (game_field (table g)) (combinations (table g)) in
  ai_get_step player g = MkRun answer g [Call_get_step s]
  /\ ai_step_result player g =
       match answer with
       | Ok (index_row, index_column) =>
           let r := step_result index_row index_column player g in
           MkRun (outcome r) (after r) (Call_get_step s :: trace r)
       | Raise e => MkRun (Raise e) g [Call_get_step s]
       end.
Proof.
  intros s answer. split; [reflexivity|].
  unfold ai_step_result, ai_get_step, bind. cbn [outcome after trace].
  fold s. fold answer. destruct answer as [[r c]|e]; reflexivity.
Qed.

(** C8.  When [set_symbol_cell] raises, [step] leaves every [Player] object
    as it is, the step counter of [player] included, and has not called
    [add_count_step]. *)
Theorem step_failed_keeps_count_steps index_row index_column player g e t :
  set_symbol_cell index_row index_column (symbol (player_of g player))
    (table g) = (Raise e, t) ->
  let r := step index_row index_column player g in
  player_of (after r) = player_of g
  /\ count_steps (player_of (after r) player) = count_steps (player_of g player)
  /\ forall p, Call_add_count_step p ∉ trace r.
Proof.
  intros Hraise r. subst r. unfold_run. rewrite Hraise. cbn.
  repeat split. intros p Hin. apply list_elem_of_singleton in Hin. discriminate.
Qed.

(** C9.  In a game whose code is terminal, [step] on a cell the table
    accepts returns: the table is the one [set_symbol_cell] left, the
    player's counter is one higher and the game state is untouched; the same
    call on the same game with the initial, [IN_PROGRESS] game state does
    the same to the table and to the counter. *)
Theorem step_in_terminal_state index_row index_column player g t :
  terminal (code (game_state g)) = true ->
  set_symbol_cell index_row index_column (symbol (player_of g player))
    (table g) = (Ok tt, t) ->
  let players' :=
    <[player := add_count_step (player_of g player)]> (player_of g) in
  let calls :=
    [Call_set_symbol_cell index_row index_column (symbol (player_of g player));
     Call_add_count_step player] in
  step index_row index_column player g =
    MkRun (Ok tt)
      {| table := t; game_state := game_state g; player_of := players' |}
      calls
  /\ step index_row index_column player (with_game_state GameState_default g) =
       MkRun (Ok tt)
         {| table := t; game_state := GameState_default;
            player_of := players' |}
         calls.
Proof.
  intros _ Hok players' calls. unfold_run. rewrite Hok. done.
Qed.

(** C10.  [result] leaves the table and the [Player] objects as they are:
    the game afterwards is the game before with, at most, another game
    state; the calls it makes are to the checker, to [count_free_cells], to
    [set_winner] and to [set_draw] only; and without a call of [set_winner]
    or [set_draw] the game state is unchanged too. *)
Theorem result_frame player g :
  let r := result player g in
  table (after r) = table g
  /\ player_of (after r) = player_of g
  /\ after r = with_game_state (game_state (after r)) g
  /\ Forall (fun call =>
               match call with
               | Call_result_player _ | Call_count_free_cells
               | Call_set_winner _ _ | Call_set_draw => True
               | _ => False
               end) (trace r)
  /\ ((forall c, Call_set_winner player c ∉ trace r) ->
      Call_set_draw ∉ trace r ->
      game_state (after r) = game_state g).
Proof.
  intros r. subst r.
  destruct (result_cases player g) as [E|[(c & _ & E)|[E|E]]];
    rewrite E; destruct g; cbn; repeat split;
    repeat constructor; intros Hw Hd; try done.
  - exfalso. apply (Hw c). apply list_elem_of_In. cbn. tauto.
  - exfalso. apply Hd. apply list_elem_of_In. cbn. tauto.
Qed.

(** ** Further properties of the methods *)

(** The two runs of [step]. *)
Lemma step_cases index_row index_column player g :
  let s := symbol (player_of g player) in
  (exists t,
     set_symbol_cell index_row index_column s (table g) = (Ok tt, t)
     /\ step index_row index_column player g =
          MkRun (Ok tt)
            (with_player player (add_count_step (player_of g player))
               (with_table t g))
            [Call_set_symbol_cell index_row index_column s;
             Call_add_count_step player])
  \/ (exists e t,
        set_symbol_cell index_row index_column s (table g) = (Raise e, t)
        /\ step index_row index_column player g =
             MkRun (Raise e) (with_table t g)
               [Call_set_symbol_cell index_row index_column s]).
Proof.
  intros s. unfold_run. fold s.
  destruct (set_symbol_cell index_row index_column s (table g))
    as [[[]|e] t]; [left | right]; eauto.
Qed.

(** The runs of [result] with the conditions under which each happens. *)
Lemma result_inv player g :
  result player g = MkRun (Ok (game_state g)) g []
  \/ result player g =
       MkRun (Ok (game_state g)) g
         [Call_result_player (symbol (player_of g player));
          Call_count_free_cells]
  \/ (param_COMBINATION (table g) <= count_steps (player_of g player)
      /\ exists c, win_comb_of g player = Some c /\ c <> []
         /\ result player g =
              MkRun (Ok (game_state (after_set_winner player c g)))
                (after_set_winner player c g)
                [Call_result_player (symbol (player_of g player));
                 Call_set_winner player c])
  \/ (param_COMBINATION (table g) <= count_steps (player_of g player)
      /\ truthy (win_comb_of g player) = false
      /\ count_free_cells (table g) = 0
      /\ result player g =
           MkRun (Ok (game_state (after_set_draw g))) (after_set_draw g)
             [Call_result_player (symbol (player_of g player));
              Call_count_free_cells; Call_set_draw]).
Proof.
  destruct (decide (param_COMBINATION (table g)
                    <= count_steps (player_of g player))) as [Hle|Hgt];
    [|left; apply result_gate_closed; lia].
  rewrite (result_gate_open _ _ Hle).
  destruct (truthy (win_comb_of g player)) eqn:Ht.
  - right; right; left. split; [done|].
    destruct (win_comb_of g player) as [[|i c]|] eqn:Hc; try discriminate.
    exists (i :: c). split; [done|]. split; [done|].
    by apply ungated_winner.
  - destruct (decide (count_free_cells (table g) = 0)) as [H0|Hfree].
    + right; right; right. repeat split; try done. by apply ungated_draw.
    + right; left. by apply ungated_unchanged.
Qed.

(** The check of win and draw begins by asking the checker. *)
Lemma ungated_asks_checker player g :
  exists calls,
    trace (result_ungated player g) =
      Call_result_player (symbol (player_of g player)) :: calls.
Proof.
  unfold_run.
  destruct (win_comb_of g player) as [[|i c]|]; cbn;
    try case_bool_decide; cbn; eauto.
Qed.

(** Sequencing keeps what both parts establish. *)
Lemma establishes_bind {A B : Type} (R : relation (Game Symbol Table))
    `{!Transitive R} (m : @M Symbol Exn Table A)
    (k : A -> @M Symbol Exn Table B) :
  establishes R m -> (forall a, establishes R (k a)) ->
  establishes R (bind m k).
Proof.
  intros Hm Hk g. unfold bind. destruct (outcome (m g)) as [a|e]; cbn.
  - transitivity (after (m g)); [apply Hm | apply Hk].
  - apply Hm.
Qed.

Lemma establishes_gets {A : Type} (R : relation (Game Symbol Table))
    `{!Reflexive R} (f : Game Symbol Table -> A) :
  establishes (Exn := Exn) R (gets f).
Proof. intros g. cbn. reflexivity. Qed.

(** [step] establishes what [set_symbol_cell] and [add_count_step] do. *)
Lemma establishes_step (R : relation (Game Symbol Table)) `{!PreOrder R}
    index_row index_column player :
  (forall r c s, establishes R (table_set_symbol_cell r c s)) ->
  (forall p, establishes (Exn := Exn) R (player_add_count_step p)) ->
  establishes R (step index_row index_column player).
Proof.
  intros Hset Hadd. unfold step.
  apply establishes_bind; [apply _ | by apply establishes_gets; apply _ |].
  intros s. apply establishes_bind; [apply _ | apply Hset |].
  intros _. apply Hadd.
Qed.

(** [result] establishes what [set_winner], called with a combination of
    at least one cell, and [set_draw] do. *)
Lemma establishes_result (R : relation (Game Symbol Table)) `{!PreOrder R}
    player :
  (forall p c, c <> [] -> establishes (Exn := Exn) R (set_winner p c)) ->
  establishes (Exn := Exn) R set_draw ->
  establishes R (result player).
Proof.
  intros Hwin Hdraw g.
  destruct (result_inv player g)
    as [E|[E|[(_ & c & _ & Hne & E)|(_ & _ & _ & E)]]]; rewrite E; cbn.
  - reflexivity.
  - reflexivity.
  - by apply Hwin.
  - apply Hdraw.
Qed.

Lemma establishes_ai_get_step (R : relation (Game Symbol Table))
    `{!Reflexive R} player :
  establishes R (ai_get_step player).
Proof. intros g. cbn. reflexivity. Qed.

(** A preorder that the four operations which change an object keep is
    kept by every call of a driver, and so by every history. *)
Lemma establishes_exec (R : relation (Game Symbol Table)) `{!PreOrder R} :
  (forall r c s, establishes R (table_set_symbol_cell r c s)) ->
  (forall p, establishes (Exn := Exn) R (player_add_count_step p)) ->
  (forall p c, c <> [] -> establishes (Exn := Exn) R (set_winner p c)) ->
  establishes (Exn := Exn) R set_draw ->
  forall c g, R g (exec c g).
Proof.
  intros Hset Hadd Hwin Hdraw c g.
  assert (Hstep : forall r k p, establishes R (step r k p))
    by (intros; by apply establishes_step).
  assert (Hres : forall p, establishes R (result p))
    by (intros; by apply establishes_result).
  assert (Hsr : forall r k p, establishes R (step_result r k p)).
  { intros. apply establishes_bind; [apply _ | apply Hstep |].
    intros _. apply Hres. }
  assert (Hai : forall p, establishes R (ai_step p)).
  { intros. apply establishes_bind;
      [apply _ | by apply establishes_ai_get_step; apply _ |].
    intros i. apply Hstep. }
  assert (Hair : forall p, establishes R (ai_step_result p)).
  { intros. apply establishes_bind;
      [apply _ | by apply establishes_ai_get_step; apply _ |].
    intros i. apply Hsr. }
  destruct c as [r k p|p|r k p|p|p]; cbn.
  - apply Hstep.
  - apply Hres.
  - apply Hsr.
  - apply Hai.
  - apply Hair.
Qed.

Lemma establishes_play (R : relation (Game Symbol Table)) `{!PreOrder R} :
  (forall c g, R g (exec c g)) -> forall h g, R g (play h g).
Proof.
  intros Hexec h. unfold play.
  induction h as [|c h IH]; intros g; cbn.
  - reflexivity.
  - transitivity (exec c g); [apply Hexec | apply IH].
Qed.

(** The calls of a driver that only moves need only what
    [set_symbol_cell] and [add_count_step] keep. *)
Lemma establishes_moves (R : relation (Game Symbol Table)) `{!PreOrder R} :
  (forall r c s, establishes R (table_set_symbol_cell r c s)) ->
  (forall p, establishes (Exn := Exn) R (player_add_count_step p)) ->
  forall h g, forallb moves_only h = true -> R g (play h g).
Proof.
  intros Hset Hadd h. unfold play.
  assert (Hstep : forall r k p, establishes R (step r k p))
    by (intros; by apply establishes_step).
  assert (Hai : forall p, establishes R (ai_step p)).
  { intros. apply establishes_bind;
      [apply _ | by apply establishes_ai_get_step; apply _ |].
    intros i. apply Hstep. }
  induction h as [|c h IH]; intros g Hh; cbn.
  - reflexivity.
  - cbn in Hh. apply andb_prop in Hh as [Hc Hh].
    transitivity (exec c g); [|by apply IH].
    destruct c; try discriminate; cbn; [apply Hstep | apply Hai].
Qed.

(** The relations used below are preorders. *)
Lemma same_game_state_preorder :
  PreOrder (same_game_state (Symbol := Symbol) (Table := Table)).
Proof.
  split; [intros g; reflexivity|].
  intros g1 g2 g3 H1 H2. unfold same_game_state in *. congruence.
Qed.

Lemma terminal_kept_preorder :
  PreOrder (terminal_kept (Symbol := Symbol) (Table := Table)).
Proof.
  split; [intros g H; exact H|].
  intros g1 g2 g3 H1 H2 H. exact (H2 (H1 H)).
Qed.

Lemma coherent_kept_preorder :
  PreOrder (coherent_kept (Symbol := Symbol) (Table := Table)).
Proof.
  split; [intros g H; exact H|].
  intros g1 g2 g3 H1 H2 H. exact (H2 (H1 H)).
Qed.

Lemma players_grow_preorder :
  PreOrder (players_grow (Symbol := Symbol) (Table := Table)).
Proof.
  split.
  - intros g q. split; [done | lia].
  - intros g1 g2 g3 H1 H2 q.
    destruct (H1 q) as [Hs1 Hc1], (H2 q) as [Hs2 Hc2].
    split; [congruence | lia].
Qed.

(** What the two operations on the table and on a player keep. *)
Lemma set_symbol_cell_keeps_rest index_row index_column s g :
  game_state (after (table_set_symbol_cell index_row index_column s g))
    = game_state g
  /\ player_of (after (table_set_symbol_cell index_row index_column s g))
      = player_of g.
Proof.
  unfold table_set_symbol_cell.
  destruct (set_symbol_cell index_row index_column s (table g)); done.
Qed.

Lemma add_count_step_grows p g :
  players_grow g (after (player_add_count_step (Exn := Exn) p g)).
Proof.
  intros q. cbn. destruct (decide (p = q)) as [->|Hne].
  - rewrite fn_lookup_insert. cbn. split; [done | lia].
  - rewrite fn_lookup_insert_ne by done. split; [done | lia].
Qed.

(** X1.  [step] leaves the game state, every other [Player] object and the
    symbol of [player] as they are, whether it returns or raises, and the
    counter of [player] is one higher exactly when [step] returns. *)
Theorem step_frame index_row index_column player g :
  let r := step index_row index_column player g in
  game_state (after r) = game_state g
  /\ (forall q, q <> player -> player_of (after r) q = player_of g q)
  /\ symbol (player_of (after r) player) = symbol (player_of g player)
  /\ count_steps (player_of (after r) player) =
       count_steps (player_of g player)
       + match outcome r with Ok _ => 1 | Raise _ => 0 end.
Proof.
  intros r. subst r.
  destruct (step_cases index_row index_column player g)
    as [(t & _ & E)|(e & t & _ & E)]; rewrite E; cbn.
  - repeat split.
    + intros q Hq. by rewrite fn_lookup_insert_ne.
    + by rewrite fn_lookup_insert.
    + by rewrite fn_lookup_insert.
  - repeat split. lia.
Qed.

(** X2.  [ai_step] asks the strategy once and then runs [step] at the cell
    returned; when the strategy raises, [ai_step] raises the same exception
    and the game is untouched.  In every case the game state is left as it
    is and neither the checker nor [count_free_cells], [set_winner] or
    [set_draw] is called. *)
Theorem ai_step_frame player g :
  let s := symbol (player_of g player) in
  ai_step player g =
    match get_step s (game_field (table g)) (combinations (table g)) with
    | Ok (index_row, index_column) =>
        let r := step index_row index_column player g in
        MkRun (outcome r) (after r) (Call_get_step s :: trace r)
    | Raise e => MkRun (Raise e) g [Call_get_step s]
    end
  /\ game_state (after (ai_step player g)) = game_state g
  /\ Forall (fun call =>
               match call with
               | Call_get_step _ | Call_set_symbol_cell _ _ _
               | Call_add_count_step _ => True
               | _ => False
               end) (trace (ai_step player g)).
Proof.
  intros s.
  assert (E : ai_step player g =
    match get_step s (game_field (table g)) (combinations (table g)) with
    | Ok (index_row, index_column) =>
        let r := step index_row index_column player g in
        MkRun (outcome r) (after r) (Call_get_step s :: trace r)
    | Raise e => MkRun (Raise e) g [Call_get_step s]
    end).
  { unfold ai_step, ai_get_step, bind. cbn [outcome after trace]. fold s.
    destruct (get_step s _ _) as [[r c]|e]; reflexivity. }
  split; [exact E|]. rewrite E.
  destruct (get_step s _ _) as [[r c]|e].
  - destruct (step_cases r c player g) as [(t & _ & E')|(e & t & _ & E')];
      rewrite E'; cbn; split; try done; repeat constructor.
  - cbn. split; [done | repeat constructor].
Qed.

(** X3.  [ai_step_result] is [ai_step] followed, when [ai_step] returns, by
    [result] for the same player: the same outcome, the same game
    afterwards and the same calls. *)
Theorem ai_step_result_is_ai_step_then_result player g :
  ai_step_result player g = bind (ai_step player) (fun _ => result player) g.
Proof.
  unfold ai_step_result, ai_step, step_result, bind.
  destruct (outcome (ai_get_step player g)) as [i|e]; cbn [outcome after trace];
    [|reflexivity].
  destruct (outcome (step i.1 i.2 player (after (ai_get_step player g))));
    cbn [outcome after trace]; [|reflexivity].
  by rewrite app_assoc.
Qed.

(** X4.  Calling [result] again at once for the same player repeats the
    first call: the same calls are made, the same game state is returned
    and the game is left as the first call left it. *)
Theorem result_twice player g :
  result player (after (result player g)) = result player g.
Proof.
  destruct (result_inv player g)
    as [E|[E|[(Hle & c & Hc & Hne & E)|(Hle & Hf & H0 & E)]]];
    rewrite E; cbn [after]; try done.
  - rewrite result_gate_open by done.
    rewrite (ungated_winner player (after_set_winner player c g) c)
      by done.
    destruct g; reflexivity.
  - rewrite result_gate_open by done.
    rewrite (ungated_draw player (after_set_draw g)) by done.
    destruct g; reflexivity.
Qed.

(** X5.  [result] changes the game state only when the player has made at
    least [run_length] steps, and then either the checker returned a
    combination of at least one cell for the player's symbol and the state
    is [WINNER] with this player and that combination, or the checker
    returned none, no cell is free and the code is [ALL_CELLS_USED]. *)
Theorem result_changes_state_only player g :
  game_state (after (result player g)) <> game_state g ->
  param_COMBINATION (table g) <= count_steps (player_of g player)
  /\ ((exists c,
         win_comb_of g player = Some c /\ c <> []
         /\ game_state (after (result player g)) =
              {| code := WINNER; win_player := Some player;
                 win_combination := Some c |})
      \/ (truthy (win_comb_of g player) = false
          /\ count_free_cells (table g) = 0
          /\ code (game_state (after (result player g))) = ALL_CELLS_USED)).
Proof.
  destruct (result_inv player g)
    as [E|[E|[(Hle & c & Hc & Hne & E)|(Hle & Hf & H0 & E)]]];
    rewrite E; cbn [after]; intros Hchanged; try done.
  - split; [done|]. left. exists c. done.
  - split; [done|]. right. done.
Qed.

(** X6.  [step_result] tests the counter after the move is counted.  When
    [set_symbol_cell] returns: if the player's steps, this one included,
    are fewer than the run length of the table left by the move,
    [step_result] only places and counts; otherwise it goes on to ask the
    checker, and ends as the check of win and draw on the game after the
    move ends. *)
Theorem step_result_counts_the_move index_row index_column player g t :
  set_symbol_cell index_row index_column (symbol (player_of g player))
    (table g) = (Ok tt, t) ->
  let s := symbol (player_of g player) in
  let g1 :=
    with_player player (add_count_step (player_of g player)) (with_table t g) in
  let moved :=
    [Call_set_symbol_cell index_row index_column s;
     Call_add_count_step player] in
  (count_steps (player_of g player) + 1 < param_COMBINATION t ->
     step_result index_row index_column player g =
       MkRun (Ok (game_state g)) g1 moved)
  /\ (param_COMBINATION t <= count_steps (player_of g player) + 1 ->
      step_result index_row index_column player g =
        MkRun (outcome (result_ungated player g1))
          (after (result_ungated player g1))
          (moved ++ trace (result_ungated player g1))
      /\ Call_result_player s ∈ trace (step_result index_row index_column player g)).
Proof.
  intros Hok s g1 moved.
  assert (Hstep : step index_row index_column player g = MkRun (Ok tt) g1 moved).
  { destruct (step_cases index_row index_column player g)
      as [(t' & Ht' & E)|(e & t' & Ht' & _)]; [|congruence].
    rewrite E. subst g1 moved s. congruence. }
  assert (Hcount : count_steps (player_of g1 player)
                   = count_steps (player_of g player) + 1).
  { subst g1. cbn. by rewrite fn_lookup_insert. }
  assert (Hsym : symbol (player_of g1 player) = s).
  { subst g1. cbn. by rewrite fn_lookup_insert. }
  assert (E : step_result index_row index_column player g =
              MkRun (outcome (result player g1)) (after (result player g1))
                (moved ++ trace (result player g1))).
  { unfold step_result, bind. rewrite Hstep. reflexivity. }
  split.
  - intros Hlt. rewrite E, result_gate_closed.
    + reflexivity.
    + rewrite Hcount. exact Hlt.
  - intros Hle. rewrite E, result_gate_open by (rewrite Hcount; exact Hle).
    split; [reflexivity|]. cbn [trace].
    destruct (ungated_asks_checker player g1) as [calls Hcalls].
    rewrite Hcalls, Hsym. apply elem_of_app. right. apply list_elem_of_here.
Qed.

(** X7.  No history brings a game back to [IN_PROGRESS]: once the code is
    terminal it is terminal after every further sequence of calls of
    [step], [result], [step_result], [ai_step] and [ai_step_result],
    whether they return or raise. *)
Theorem play_keeps_code_terminal h g :
  terminal (code (game_state g)) = true ->
  terminal (code (game_state (play h g))) = true.
Proof.
  pose proof terminal_kept_preorder as HR.
  revert h g. apply (establishes_play terminal_kept).
  apply (establishes_exec terminal_kept).
  - intros r c s g0. unfold terminal_kept.
    by rewrite (proj1 (set_symbol_cell_keeps_rest r c s g0)).
  - intros p g0 H. exact H.
  - intros p c _ g0 _. reflexivity.
  - intros g0 _. reflexivity.
Qed.

(** X8.  Over every history the [Player] objects keep their symbols and no
    step counter goes down. *)
Theorem play_players_grow h g :
  players_grow g (play h g).
Proof.
  pose proof players_grow_preorder as HR.
  revert h g. apply (establishes_play players_grow).
  apply (establishes_exec players_grow).
  - intros r c s g0 q.
    rewrite (proj2 (set_symbol_cell_keeps_rest r c s g0)). split; [done|lia].
  - intros p g0. apply add_count_step_grows.
  - intros p c _ g0 q. cbn. split; [done|lia].
  - intros g0 q. cbn. split; [done|lia].
Qed.

(** X9.  A coherent game state stays coherent over every sequence of calls
    of [step], [result], [step_result], [ai_step] and [ai_step_result],
    whether they return or raise: while the code is [IN_PROGRESS] no winner
    and no combination is recorded, and whenever it is [WINNER] a player
    and a combination of at least one cell are.  ([set_winner] called
    directly takes any combination, the empty one too, and is not among
    these calls.) *)
Theorem play_keeps_coherent h g :
  coherent (game_state g) -> coherent (game_state (play h g)).
Proof.
  pose proof coherent_kept_preorder as HR.
  revert h g. apply (establishes_play coherent_kept).
  apply (establishes_exec coherent_kept).
  - intros r c s g0. unfold coherent_kept.
    by rewrite (proj1 (set_symbol_cell_keeps_rest r c s g0)).
  - intros p g0 H. exact H.
  - intros p c Hne g0 _. split; cbn; [discriminate | eauto].
  - intros g0 _. split; cbn; discriminate.
Qed.

(** X10.  Only [result], by itself or inside [step_result] and
    [ai_step_result], changes the game state: a history of calls of [step]
    and [ai_step] alone, whatever they place and whether they return or
    raise, leaves the game state as it is. *)
Theorem moves_keep_game_state h g :
  forallb moves_only h = true ->
  game_state (play h g) = game_state g.
Proof.
  pose proof same_game_state_preorder as HR.
  revert h g. apply (establishes_moves same_game_state).
  - intros r c s g0. apply set_symbol_cell_keeps_rest.
  - intros p g0. reflexivity.
Qed.

(** A preorder that [step] and [result] keep is kept by every call of a
    driver. *)
Lemma establishes_exec_methods (R : relation (Game Symbol Table))
    `{!PreOrder R} :
  (forall r k p, establishes R (step r k p)) ->
  (forall p, establishes R (result p)) ->
  forall c g, R g (exec c g).
Proof.
  intros Hstep Hres c g.
  assert (Hsr : forall r k p, establishes R (step_result r k p)).
  { intros. apply establishes_bind; [apply _ | apply Hstep |].
    intros _. apply Hres. }
  assert (Hai : forall p, establishes R (ai_step p)).
  { intros. apply establishes_bind;
      [apply _ | by apply establishes_ai_get_step; apply _ |].
    intros i. apply Hstep. }
  assert (Hair : forall p, establishes R (ai_step_result p)).
  { intros. apply establishes_bind;
      [apply _ | by apply establishes_ai_get_step; apply _ |].
    intros i. apply Hsr. }
  destruct c as [r k p|p|r k p|p|p]; cbn.
  - apply Hstep.
  - apply Hres.
  - apply Hsr.
  - apply Hai.
  - apply Hair.
Qed.
End GameXO_properties.

(** ** The game on concrete boards *)

Import Default.

Local Open Scope string_scope.

(** The default table of a 3 x 3 board with run length 3 has the eight
    lines of tic-tac-toe. *)
Example combinations_3_3 :
  generate_combinations 3 3 =
    [[(0, 0); (0, 1); (0, 2)]; [(1, 0); (1, 1); (1, 2)];
     [(2, 0); (2, 1); (2, 2)]; [(0, 0); (1, 0); (2, 0)];
     [(0, 1); (1, 1); (2, 1)]; [(0, 2); (1, 2); (2, 2)];
     [(0, 0); (1, 1); (2, 2)]; [(0, 2); (1, 1); (2, 0)]].
Proof. vm_compute. reflexivity. Qed.

(** The end-to-end scenario: after the fifth move [step_result] has found
    X the winner with row 0. *)
Example end_to_end_X_wins :
  game_state game_X_won_row0 =
    {| code := WINNER; win_player := Some player_X;
       win_combination := Some [(0, 0); (0, 1); (0, 2)] |}.
Proof. vm_compute. reflexivity. Qed.

(** The default table accepts a move on a cell that is in bounds and
    empty, and refuses one on an occupied cell without touching the grid. *)
Lemma TableDefault_accepts_free_cell (r c : Z) (s : string) (t : TableDefault)
    (cell : Cell) :
  0 <= r < size t -> 0 <= c < size t ->
  cell_at (grid t) (r, c) = Some cell -> cell_symbol cell = None ->
  (set_symbol_cell r c s t).1 = Ok tt.
Proof.
  intros Hr Hc Hcell Hfree. cbn. unfold TableDefault_set_symbol_cell.
  rewrite bool_decide_eq_true_2 by done. rewrite Hcell.
  destruct cell as [? ? []]; [discriminate | reflexivity].
Qed.

Lemma TableDefault_refuses_occupied_cell (r c : Z) (s s' : string)
    (t : TableDefault) (cell : Cell) :
  cell_at (grid t) (r, c) = Some cell -> cell_symbol cell = Some s' ->
  set_symbol_cell r c s t = (Raise InvalidMoveError, t).
Proof.
  intros Hcell Hocc. cbn. unfold TableDefault_set_symbol_cell.
  case_bool_decide; [|reflexivity]. rewrite Hcell.
  destruct cell as [? ? []]; [reflexivity | discriminate].
Qed.

(** *** The default table and checker along a history

    What the test of [count_steps] rests on: a line has [run_length]
    different cells, a move fills one cell, and the checker returns a line
    only when all its cells hold the symbol. *)

(** A line names no cell twice and has [K] cells. *)
Lemma line_NoDup (K r c dr dc : Z) :
  dr <> 0 \/ dc <> 0 -> NoDup (line K r c dr dc).
Proof.
  intros Hd. unfold line. apply NoDup_fmap_2_strong; [|apply NoDup_seqZ].
  intros i j _ _ Heq. injection Heq as H1 H2. destruct Hd; nia.
Qed.

Lemma line_length (K r c dr dc : Z) :
  length (line K r c dr dc) = Z.to_nat K.
Proof. unfold line. by rewrite length_fmap, length_seqZ. Qed.

Lemma generate_combinations_lines (N K : Z) (l : CombType) :
  l ∈ generate_combinations N K ->
  exists r c dr dc, (dr <> 0 \/ dc <> 0) /\ l = line K r c dr dc.
Proof.
  unfold generate_combinations, horizontal, vertical, diagonal_down,
    diagonal_up.
  rewrite elem_of_remove_dups, !elem_of_app, !list_elem_of_bind.
  intros [H|[H|[H|H]]]; destruct H as (a & H & _);
    apply list_elem_of_bind in H as (b & H & _);
    apply list_elem_of_singleton in H; subst l.
  - exists a, b, 0, 1. split; [right; lia | done].
  - exists b, a, 1, 0. split; [left; lia | done].
  - exists a, b, 1, 1. split; [left; lia | done].
  - exists a, b, 1, (-1). split; [left; lia | done].
Qed.

Lemma make_table_lines_wf (N K : Z) : lines_wf (make_table N K).
Proof.
  intros l Hl. cbn in Hl.
  apply generate_combinations_lines in Hl as (r & c & dr & dc & Hd & ->).
  split; [by apply line_NoDup|].
  intros Hne. rewrite line_length. cbn.
  destruct (decide (0 <= K)); [lia|].
  exfalso. apply Hne. unfold line. rewrite seqZ_nil by lia. done.
Qed.

(** Lookup in a list of rows after one element of one row is altered. *)
Lemma lookup_alter_row {A : Type} (f : A -> A) (l : list (list A))
    (r c i j : nat) :
  alter (alter f c) r l !! i ≫= (fun cells => cells !! j) =
    if decide (i = r /\ j = c)
    then f <$> (l !! i ≫= fun cells => cells !! j)
    else l !! i ≫= fun cells => cells !! j.
Proof.
  destruct (decide (i = r)) as [->|Hr].
  - rewrite list_lookup_alter_eq. destruct (l !! r) as [cells|]; cbn.
    + destruct (decide (j = c)) as [->|Hc].
      * rewrite list_lookup_alter_eq. by rewrite decide_True.
      * rewrite list_lookup_alter_ne by done.
        rewrite decide_False by tauto. done.
    + by destruct (decide _).
  - rewrite list_lookup_alter_ne by done. rewrite decide_False by tauto. done.
Qed.

(** What a cell holds after an accepted move. *)
Lemma holds_after_move (r c : Z) (s0 s : string) (t t' : TableDefault)
    (i : CellIndex) :
  set_symbol_cell r c s0 t = (Ok tt, t') ->
  holds s (grid t') i = true ->
  holds s (grid t) i = true \/ (i = (r, c) /\ s = s0).
Proof.
  cbn. unfold TableDefault_set_symbol_cell.
  case_bool_decide as Hb; [|discriminate].
  destruct (cell_at (grid t) (r, c)) as [[cr cc [sym|]]|] eqn:Hcell;
    try discriminate.
  intros [= <-]. cbn [grid]. destruct i as [i1 i2].
  unfold holds, cell_at, GameFieldType in *. cbn [fst snd] in *.
  rewrite bool_decide_eq_true_2 in Hcell by lia.
  case_bool_decide as Hi; [|discriminate].
  rewrite lookup_alter_row.
  destruct (decide (Z.to_nat i1 = Z.to_nat r /\ Z.to_nat i2 = Z.to_nat c))
    as [[H1 H2]|_]; [|auto].
  assert (i1 = r) as -> by lia. assert (i2 = c) as -> by lia.
  rewrite Hcell. cbn. intros H. apply bool_decide_eq_true in H.
  right. split; congruence.
Qed.

Lemma set_symbol_cell_keeps_lines (r c : Z) (s0 : string) (t t' : TableDefault)
    (o : Res GameError unit) :
  set_symbol_cell r c s0 t = (o, t') ->
  table_combinations t' = table_combinations t
  /\ run_length t' = run_length t
  /\ (forall e, o = Raise e -> t' = t).
Proof.
  cbn. unfold TableDefault_set_symbol_cell.
  case_bool_decide; [|intros [= <- <-]; done].
  destruct (cell_at (grid t) (r, c)) as [[cr cc [sym|]]|];
    intros [= <- <-]; done.
Qed.

(** A filter that lets through at most one more element. *)
Lemma filter_length_le_succ {A : Type} (P Q : A -> bool) (x : A) (l : list A) :
  NoDup l ->
  (forall a, a ∈ l -> Q a = true -> P a = true \/ a = x) ->
  (length (List.filter Q l) <= S (length (List.filter P l)))%nat.
Proof.
  intros Hnd HQ.
  assert (Hmono : forall k : list A,
             (forall a, a ∈ k -> Q a = true -> P a = true) ->
             (length (List.filter Q k) <= length (List.filter P k))%nat).
  { induction k as [|a k IH]; intros Hk; cbn; [lia|].
    assert (IH' := IH (fun b Hb => Hk b (list_elem_of_further _ _ _ Hb))).
    destruct (Q a) eqn:Hq.
    - rewrite (Hk a (list_elem_of_here _ _) Hq). cbn. lia.
    - destruct (P a); cbn; lia. }
  induction Hnd as [|a l Hnotin Hnd IH]; cbn; [lia|].
  destruct (Q a) eqn:Hq.
  - destruct (HQ a (list_elem_of_here _ _) Hq) as [Hp| ->].
    + rewrite Hp. cbn.
      assert (IH' := IH (fun b Hb => HQ b (list_elem_of_further _ _ _ Hb))).
      lia.
    + assert (Hl : (length (List.filter Q l) <= length (List.filter P l))%nat).
      { apply Hmono. intros b Hb Hqb.
        destruct (HQ b (list_elem_of_further _ _ _ Hb) Hqb) as [?| ->];
          [done | contradiction]. }
      destruct (P x); cbn; lia.
  - assert (IH' := IH (fun b Hb => HQ b (list_elem_of_further _ _ _ Hb))).
    destruct (P a); cbn; lia.
Qed.

(** An accepted move adds at most one cell that holds its symbol and none
    that holds another. *)
Lemma held_after_move (r c : Z) (s0 s : string) (t t' : TableDefault) :
  set_symbol_cell r c s0 t = (Ok tt, t') ->
  held s t' <= held s t + (if decide (s = s0) then 1 else 0).
Proof.
  intros Hset.
  destruct (set_symbol_cell_keeps_lines _ _ _ _ _ _ Hset) as (Hcombs & _ & _).
  unfold held, lines_cells. rewrite Hcombs.
  set (cells := remove_dups (concat (table_combinations t))).
  assert (Hnd : NoDup cells) by apply NoDup_remove_dups.
  destruct (decide (s = s0)) as [->|Hne].
  - pose proof (filter_length_le_succ (holds s0 (grid t)) (holds s0 (grid t'))
                  (r, c) cells Hnd) as Hle.
    assert (Hle' := Hle (fun a _ Ha =>
      match holds_after_move r c s0 s0 t t' a Hset Ha with
      | or_introl H => or_introl H
      | or_intror (conj H _) => or_intror H
      end)).
    lia.
  - pose proof (filter_length_le_succ (holds s (grid t)) (holds s (grid t'))
                  (r, c) cells Hnd) as Hle.
    assert (Hsame : (length (List.filter (holds s (grid t')) cells)
                     <= length (List.filter (holds s (grid t)) cells))%nat).
    { clear Hle Hnd. induction cells as [|a k IH]; cbn; [lia|].
      destruct (holds s (grid t') a) eqn:Hq.
      - destruct (holds_after_move r c s0 s t t' a Hset Hq) as [Hp|[_ Heq]];
          [|contradiction]. rewrite Hp. cbn. lia.
      - destruct (holds s (grid t) a); cbn; lia. }
    lia.
Qed.

(** A combination the checker returns has [run_length] cells that hold the
    symbol. *)
Lemma checker_needs_run_length (s : string) (t : TableDefault) :
  lines_wf t ->
  truthy (result_player s (game_field t) (combinations t)) = true ->
  run_length t <= held s t.
Proof.
  intros Hwf. cbn. unfold CheckerDefault_result_player.
  destruct (List.find _ _) as [l|] eqn:Hfind; [|discriminate].
  apply List.find_some in Hfind as [Hin Hall].
  apply list_elem_of_In in Hin.
  destruct (Hwf l Hin) as [Hnd Hlen].
  destruct l as [|i l]; [discriminate|]. intros _.
  rewrite <- Hlen by discriminate. unfold held.
  apply inj_le. apply submseteq_length. apply NoDup_submseteq; [done|].
  intros x Hx. apply list_elem_of_In. apply List.filter_In. split.
  - apply list_elem_of_In. unfold lines_cells. apply elem_of_remove_dups.
    apply list_elem_of_In. apply List.in_concat. exists (i :: l).
    split; by apply list_elem_of_In.
  - rewrite List.forallb_forall in Hall. apply Hall. by apply list_elem_of_In.
Qed.

(** No cell of an empty grid holds a symbol. *)
Lemma empty_grid_holds (N : Z) (s : string) (i : CellIndex) :
  holds s (empty_grid N) i = false.
Proof.
  unfold holds, cell_at, empty_grid, GameFieldType. case_bool_decide; [|done].
  rewrite list_lookup_fmap.
  destruct (seqZ 0 N !! Z.to_nat i.1) as [r|]; cbn; [|done].
  rewrite list_lookup_fmap.
  destruct (seqZ 0 N !! Z.to_nat i.2) as [c|]; cbn; done.
Qed.

Lemma held_make_table (N K : Z) (s : string) : held s (make_table N K) = 0.
Proof.
  unfold held. cbn [grid make_table].
  induction (lines_cells (make_table N K)) as [|i l IH]; cbn; [done|].
  by rewrite empty_grid_holds.
Qed.

(** [step] and [result] keep the count. *)
Lemma own_symbol_counted_step (player : PlayerRef) (s : string) r k q
    (g : Game string TableDefault) :
  own_symbol_counted player s g ->
  own_symbol_counted player s (after (step r k q g)).
Proof.
  intros (Hwf & Hs & Hothers & Hheld).
  destruct (step_cases r k q g) as [(t & Hset & E)|(e & t & Hset & E)];
    rewrite E; cbn [after];
    destruct (set_symbol_cell_keeps_lines _ _ _ _ _ _ Hset)
      as (Hcombs & Hrun & Hraise).
  - pose proof (held_after_move _ _ _ s _ _ Hset) as Hle.
    unfold own_symbol_counted. cbn.
    split; [|split; [|split]].
    + intros c Hc. rewrite Hcombs in Hc. rewrite Hrun. by apply Hwf.
    + destruct (decide (q = player)) as [->|Hq].
      * by rewrite fn_lookup_insert.
      * by rewrite fn_lookup_insert_ne.
    + intros p Hp. destruct (decide (q = p)) as [->|Hq].
      * rewrite fn_lookup_insert. cbn. by apply Hothers.
      * rewrite fn_lookup_insert_ne by done. by apply Hothers.
    + destruct (decide (q = player)) as [->|Hq].
      * rewrite fn_lookup_insert. cbn.
        destruct (decide _); lia.
      * rewrite fn_lookup_insert_ne by done.
        rewrite decide_False in Hle; [lia|].
        intros Heq. by apply (Hothers q).
  - rewrite (Hraise e eq_refl). by destruct g.
Qed.

Lemma own_symbol_counted_result (player : PlayerRef) (s : string) p
    (g : Game string TableDefault) :
  own_symbol_counted player s g ->
  own_symbol_counted player s (after (result p g)).
Proof.
  intros Hown.
  destruct (result_cases p g) as [E|[(c & _ & E)|[E|E]]]; rewrite E;
    by destruct g.
Qed.

Lemma own_symbol_counted_play (player : PlayerRef) (s : string) (h : list Cmd)
    (g : Game string TableDefault) :
  own_symbol_counted player s g ->
  own_symbol_counted player s (play h g).
Proof.
  set (R := fun g g' : Game string TableDefault =>
              own_symbol_counted player s g -> own_symbol_counted player s g').
  assert (HR : PreOrder R).
  { split; [intros x H; exact H|]. intros x y z H1 H2 H. exact (H2 (H1 H)). }
  revert h g. apply (establishes_play R). apply (establishes_exec_methods R).
  - intros r k p g Hown. by apply own_symbol_counted_step.
  - intros p g Hown. by apply own_symbol_counted_result.
Qed.

(** C4, as amended.  On the default table and checker, for every history
    of a game built on a new table, and every player whose symbol no other
    [Player] object has: the test of [count_steps] never hides a win, since
    below the run length the checker finds no combination for the player's
    symbol; so the variant of [result] without the test returns the same
    game state and leaves the same game as [result] wherever the player
    has made at least [run_length] steps or a cell is still free.  Where
    the player has made fewer steps and no cell is free, [result] leaves
    the game state as it is and the variant sets [ALL_CELLS_USED]. *)
Theorem gate_hides_only_a_draw (N K : Z) (players : PlayerRef -> Player string)
    (gs : GameState) (h : list Cmd) (player : PlayerRef) :
  0 <= count_steps (players player) ->
  (forall q, q <> player -> symbol (players q) <> symbol (players player)) ->
  let g := play h (Game_init (make_table N K) players gs) in
  let found :=
    result_player (symbol (player_of g player)) (game_field (table g))
      (combinations (table g)) in
  (count_steps (player_of g player) < param_COMBINATION (table g) ->
     truthy found = false)
  /\ (param_COMBINATION (table g) <= count_steps (player_of g player)
      \/ count_free_cells (table g) <> 0 ->
      observable (result_ungated player g) = observable (result player g))
  /\ (count_steps (player_of g player) < param_COMBINATION (table g) ->
      count_free_cells (table g) = 0 ->
      game_state (after (result player g)) = game_state g
      /\ code (game_state (after (result_ungated player g))) = ALL_CELLS_USED).
Proof.
  intros Hcount Hothers g found.
  assert (Hown : own_symbol_counted player (symbol (players player)) g).
  { apply own_symbol_counted_play. split; [|split; [|split]]; cbn.
    - apply make_table_lines_wf.
    - done.
    - done.
    - rewrite held_make_table. exact Hcount. }
  destruct Hown as (Hwf & Hs & _ & Hheld).
  assert (Hnowin : count_steps (player_of g player)
                   < param_COMBINATION (table g) -> truthy found = false).
  { intros Hlt. destruct (truthy found) eqn:Ht; [|done].
    subst found. rewrite Hs in Ht.
    pose proof (checker_needs_run_length _ _ Hwf Ht) as Hrun.
    cbn in Hlt. lia. }
  split; [exact Hnowin|]. split.
  - intros [Hle|Hfree]; [by rewrite result_gate_open|].
    destruct (decide (param_COMBINATION (table g)
                      <= count_steps (player_of g player))) as [Hle|Hgt];
      [by rewrite result_gate_open|].
    rewrite result_gate_closed by lia.
    rewrite ungated_unchanged; [done | apply Hnowin; lia | done].
  - intros Hlt Hfull. rewrite result_gate_closed by done.
    rewrite ungated_draw; [done | by apply Hnowin | done].
Qed.


(** Nor are the winner and the combination kept: after X has won with row
    0, O moves on (C9) and completes row 1, and [result] makes O the
    winner. *)
Example winner_overwritten :
  game_state (after (step_result 1 2 player_O game_X_won_row0)) =
    {| code := WINNER; win_player := Some player_O;
       win_combination := Some [(1, 0); (1, 1); (1, 2)] |}.
Proof. vm_compute. reflexivity. Qed.


Lemma result_from_run_length_witness :
  param_COMBINATION (table game_row0)
    <= count_steps (player_of game_row0 player_X)
  /\ game_state (after (result player_X game_row0)) =
       {| code := WINNER; win_player := Some player_X;
          win_combination := Some [(0, 0); (0, 1); (0, 2)] |}
  /\ code (game_state (after (result player_X game_full))) = ALL_CELLS_USED
  /\ result player_X game_open =
       MkRun (Ok (game_state game_open)) game_open
         [Call_result_player "X"; Call_count_free_cells].
Proof.
  assert (Hrow0 : param_COMBINATION (table game_row0)
                  <= count_steps (player_of game_row0 player_X))
    by (vm_compute; discriminate).
  assert (Hfull : param_COMBINATION (table game_full)
                  <= count_steps (player_of game_full player_X))
    by (vm_compute; discriminate).
  assert (Hopen : param_COMBINATION (table game_open)
                  <= count_steps (player_of game_open player_X))
    by (vm_compute; discriminate).
  split; [exact Hrow0|]. split; [|split].
  - apply (result_from_run_length player_X game_row0 Hrow0).
    + vm_compute. reflexivity.
    + discriminate.
  - apply (result_from_run_length player_X game_full Hfull).
    + vm_compute. reflexivity.
    + vm_compute. reflexivity.
  - apply (result_from_run_length player_X game_open Hopen).
    + vm_compute. reflexivity.
    + vm_compute. discriminate.
Defined.

Lemma result_below_run_length_witness :
  count_steps (player_of game_new player_X) < param_COMBINATION (table game_new)
  /\ outcome (result player_X game_new) = Ok GameState_default
  /\ after (result player_X game_new) = game_new
  /\ trace (result player_X game_new) = [].
Proof.
  assert (H : count_steps (player_of game_new player_X)
              < param_COMBINATION (table game_new))
    by (vm_compute; reflexivity).
  split; [exact H|].
  exact (result_below_run_length player_X game_new H).
Defined.

(** C4 fails as stated: four players in turn on a 2 x 2 board with run
    length 2, every move made with [step_result].  After the fourth move the
    board is full and nobody holds a line, but the player who moved last has
    made one step, fewer than the run length: the game with the test stays
    [IN_PROGRESS], the game without it is [ALL_CELLS_USED]. *)
Lemma gate_changes_the_game :
  let g := play history_four_players game_four_players in
  let g' := play_ungated history_four_players game_four_players in
  count_free_cells (table g) = 0
  /\ game_state g = GameState_default
  /\ code (game_state g') = ALL_CELLS_USED
  /\ outcome (result 3%nat g) = Ok GameState_default
  /\ observable (result_ungated 3%nat g) <> observable (result 3%nat g).
Proof.
  vm_compute. repeat split. intros H. discriminate H.
Qed.

(** With two players the same happens on the 1 x 1 board: X wins with the
    only move, O has made no step, and a [result] for O leaves [WINNER]
    with the test and gives [ALL_CELLS_USED] without it. *)
Example gate_changes_the_smallest_game :
  let h := [Do_step_result 0 0 player_X; Do_result player_O] in
  code (game_state (play h (new_game 1 1 ["X"; "O"]))) = WINNER
  /\ code (game_state (play_ungated h (new_game 1 1 ["X"; "O"])))
       = ALL_CELLS_USED.
Proof. vm_compute. split; reflexivity. Qed.

(** A move on an occupied cell and a move out of bounds. *)
Lemma step_propagates_error_witness :
  set_symbol_cell 0 0 "O" (table game_row0)
    = (Raise InvalidMoveError, table game_row0)
  /\ step 0 0 player_O game_row0 =
       MkRun (Raise InvalidMoveError) (with_table (table game_row0) game_row0)
         [Call_set_symbol_cell 0 0 "O"]
  /\ step_result 0 3 player_O game_row0 =
       MkRun (Raise InvalidMoveError) (with_table (table game_row0) game_row0)
         [Call_set_symbol_cell 0 3 "O"].
Proof.
  assert (Hocc : set_symbol_cell 0 0 (symbol (player_of game_row0 player_O))
                   (table game_row0)
                 = (Raise InvalidMoveError, table game_row0))
    by (vm_compute; reflexivity).
  assert (Hout : set_symbol_cell 0 3 (symbol (player_of game_row0 player_O))
                   (table game_row0)
                 = (Raise InvalidMoveError, table game_row0))
    by (vm_compute; reflexivity).
  split; [exact Hocc|]. split.
  - exact (proj1 (step_propagates_error 0 0 player_O game_row0 _ _ Hocc)).
  - exact (proj2 (step_propagates_error 0 3 player_O game_row0 _ _ Hout)).
Defined.

Lemma step_failed_keeps_count_steps_witness :
  set_symbol_cell 0 0 "O" (table game_row0)
    = (Raise InvalidMoveError, table game_row0)
  /\ count_steps (player_of (after (step 0 0 player_O game_row0)) player_O) = 2.
Proof.
  assert (Hocc : set_symbol_cell 0 0 (symbol (player_of game_row0 player_O))
                   (table game_row0)
                 = (Raise InvalidMoveError, table game_row0))
    by (vm_compute; reflexivity).
  split; [exact Hocc|].
  destruct (step_failed_keeps_count_steps 0 0 player_O game_row0 _ _ Hocc)
    as (_ & Hcount & _).
  rewrite Hcount. vm_compute. reflexivity.
Defined.

(** X has won with row 0; O still moves to the free cell (1, 2). *)
Lemma step_in_terminal_state_witness :
  terminal (code (game_state game_X_won_row0)) = true
  /\ outcome (step 1 2 player_O game_X_won_row0) = Ok tt
  /\ count_steps
       (player_of (after (step 1 2 player_O game_X_won_row0)) player_O) = 3
  /\ game_state (after (step 1 2 player_O game_X_won_row0)) =
       game_state game_X_won_row0.
Proof.
  assert (Hterm : terminal (code (game_state game_X_won_row0)) = true)
    by (vm_compute; reflexivity).
  split; [exact Hterm|].
  destruct (step_in_terminal_state 1 2 player_O game_X_won_row0
              (snd (set_symbol_cell 1 2 "O" (table game_X_won_row0)))
              Hterm) as [Hstep _].
  - vm_compute. reflexivity.
  - rewrite Hstep. vm_compute. repeat split.
Defined.

(** *** Runs of the further properties *)

(** The call of [result] that finds row 0 of X changes the game state. *)
Lemma result_changes_state_only_witness :
  game_state (after (result player_X game_row0)) <> game_state game_row0
  /\ param_COMBINATION (table game_row0)
       <= count_steps (player_of game_row0 player_X).
Proof.
  assert (H : game_state (after (result player_X game_row0))
              <> game_state game_row0)
    by (vm_compute; discriminate).
  split; [exact H|].
  exact (proj1 (result_changes_state_only player_X game_row0 H)).
Defined.

(** The first move of X is only placed and counted; its third move, which
    brings the counter to the run length, is checked and wins. *)
Lemma step_result_counts_the_move_witness :
  step_result 0 0 player_X game_new =
    MkRun (Ok GameState_default)
      (with_player player_X (add_count_step (player_of game_new player_X))
         (with_table (set_symbol_cell 0 0 "X" (table game_new)).2 game_new))
      [Call_set_symbol_cell 0 0 "X"; Call_add_count_step player_X]
  /\ count_steps (player_of game_two_moves_each player_X) = 2
  /\ Call_result_player "X" ∈ trace (step_result 0 2 player_X game_two_moves_each).
Proof.
  split; [|split].
  - apply (step_result_counts_the_move 0 0 player_X game_new
             (set_symbol_cell 0 0 "X" (table game_new)).2).
    + vm_compute. reflexivity.
    + vm_compute. reflexivity.
  - vm_compute. reflexivity.
  - apply (step_result_counts_the_move 0 2 player_X game_two_moves_each
             (set_symbol_cell 0 2 "X" (table game_two_moves_each)).2).
    + vm_compute. reflexivity.
    + vm_compute. discriminate.
Defined.

(** After X has won, a move of O that completes a line, a further
    [result] and a move out of bounds leave the code terminal. *)
Lemma play_keeps_code_terminal_witness :
  terminal (code (game_state game_X_won_row0)) = true
  /\ terminal
       (code (game_state
                (play [Do_step_result 1 2 player_O; Do_result player_X;
                       Do_step 5 5 player_O] game_X_won_row0))) = true.
Proof.
  assert (H : terminal (code (game_state game_X_won_row0)) = true)
    by (vm_compute; reflexivity).
  split; [exact H|].
  exact (play_keeps_code_terminal _ game_X_won_row0 H).
Defined.

Lemma play_keeps_coherent_witness :
  coherent (game_state game_new)
  /\ coherent (game_state (play history_X_wins_last game_new)).
Proof.
  assert (H : coherent (game_state game_new)).
  { split; cbn; [done | discriminate]. }
  split; [exact H|].
  exact (play_keeps_coherent history_X_wins_last game_new H).
Defined.

(** The five moves that give X row 0 leave the game state of the new game. *)
Lemma moves_keep_game_state_witness :
  game_state game_row0 = game_state game_new.
Proof.
  apply (moves_keep_game_state
           [Do_step 0 0 player_X; Do_step 1 1 player_O; Do_step 0 1 player_X;
            Do_step 1 0 player_O; Do_step 0 2 player_X] game_new).
  reflexivity.
Defined.

(** The hypothesis on the symbol is needed: with two [Player] objects of
    symbol X, the second completes row 0 with its first move; [result] for
    it skips the check and the variant makes it the winner. *)
Example gate_hides_win_of_shared_symbol :
  count_steps (player_of game_shared_symbol 1%nat) = 1
  /\ game_state (after (result 1%nat game_shared_symbol)) = GameState_default
  /\ game_state (after (result_ungated 1%nat game_shared_symbol)) =
       {| code := WINNER; win_player := Some 1%nat;
          win_combination := Some [(0, 0); (0, 1); (0, 2)] |}.
Proof. vm_compute. repeat split. Qed.

(** X before its third move: no line yet and the two variants agree; the
    fourth of four players on the full 2 x 2 board: the draw is hidden. *)
Lemma gate_hides_only_a_draw_witness :
  (0 <= count_steps (new_players ["X"; "O"] player_X)
   /\ forall q, q <> player_X ->
        symbol (new_players ["X"; "O"] q)
          <> symbol (new_players ["X"; "O"] player_X))
  /\ observable (result_ungated player_X game_two_moves_each) =
       observable (result player_X game_two_moves_each)
  /\ code (game_state
             (after (result_ungated 3%nat
                       (play history_four_players game_four_players))))
       = ALL_CELLS_USED.
Proof.
  assert (HX : 0 <= count_steps (new_players ["X"; "O"] player_X)
               /\ forall q, q <> player_X ->
                    symbol (new_players ["X"; "O"] q)
                      <> symbol (new_players ["X"; "O"] player_X)).
  { split; [vm_compute; discriminate|].
    intros [|[|q]] Hq; cbn; [done | discriminate | discriminate]. }
  assert (HD : 0 <= count_steps (new_players ["A"; "B"; "C"; "D"] 3%nat)
               /\ forall q, q <> 3%nat ->
                    symbol (new_players ["A"; "B"; "C"; "D"] q)
                      <> symbol (new_players ["A"; "B"; "C"; "D"] 3%nat)).
  { split; [vm_compute; discriminate|].
    intros [|[|[|[|q]]]] Hq; cbn; try discriminate. done. }
  split; [exact HX|]. split.
  - destruct (gate_hides_only_a_draw 3 3 (new_players ["X"; "O"])
                GameState_default
                [Do_step_result 0 0 player_X; Do_step_result 1 1 player_O;
                 Do_step_result 0 1 player_X; Do_step_result 1 0 player_O]
                player_X (proj1 HX) (proj2 HX)) as (_ & Hagree & _).
    apply Hagree. right. vm_compute. discriminate.
  - destruct (gate_hides_only_a_draw 2 2 (new_players ["A"; "B"; "C"; "D"])
                GameState_default history_four_players 3%nat
                (proj1 HD) (proj2 HD)) as (_ & _ & Hdraw).
    apply Hdraw; vm_compute; reflexivity.
Defined.
